(** * wx/process.h: the wxProcess handle and the wxProcessEvent record

    A shallow embedding of [include/wx/process.h].  C++ [int] and [long]
    values are integers in [Z], [unsigned] values are naturals in [N]; the
    header performs no arithmetic on them, so no wrap-around is involved.
    Pointers are optional addresses ([None] is [nullptr]) into a store of
    live objects, so that [delete] and aliasing can be stated. *)

From stdpp Require Import base option gmap list.

Open Scope Z_scope.

(** ** Pointers and the object store *)

Abbreviation loc := positive.
Abbreviation ptr := (option loc).

Definition nullptr : ptr := None.

(** What the header needs to know of a stream object: its static class
    (wxInputStream or wxOutputStream, two unrelated classes of wx/stream.h)
    and, for a read stream, whether it has reached its end (the state the
    availability queries, which the header only declares, would read). *)
Inductive stream_status := StreamOpen | StreamClosed.

Inductive object :=
  | InputStreamObj (st : stream_status)
  | OutputStreamObj.

Abbreviation store := (gmap loc object).

(** The effect of a successful [delete p]: nothing for [nullptr], the
    object leaves the store otherwise. *)
Definition destroy (p : ptr) (σ : store) : store :=
  match p with
  | None => σ
  | Some a => delete a σ
  end.

(** [delete p] through a [wxOutputStream *]: defined for [nullptr] and for a
    live output stream; anything else (a dangling pointer, a double delete)
    is undefined behaviour, [None]. *)
Definition delete_wxOutputStream (p : ptr) (σ : store) : option store :=
  match p with
  | None => Some σ
  | Some a =>
      match σ !! a with
      | Some OutputStreamObj => Some (destroy p σ)
      | _ => None
      end
  end.

(** ** class wxProcess *)

Module wxProcess.

(** The data members, in declaration order. *)
Record t := Build {
  m_id : Z;
  m_pid : Z;
  m_priority : N;
  m_inputStream : ptr;
  m_errorStream : ptr;
  m_outputStream : ptr;
  m_redirect : bool
}.

(** A method that touches the free store runs on the object together with
    the store. *)
Record state := State {
  this : t;
  heap : store
}.

(** [long GetPid() const { return m_pid; }] *)
Definition GetPid (p : t) : Z := m_pid p.

(** [void Redirect() { m_redirect = true; }] *)
Definition Redirect (p : t) : t :=
  {| m_id := m_id p; m_pid := m_pid p; m_priority := m_priority p;
     m_inputStream := m_inputStream p; m_errorStream := m_errorStream p;
     m_outputStream := m_outputStream p; m_redirect := true |}.

(** [bool IsRedirected() const { return m_redirect; }] *)
Definition IsRedirected (p : t) : bool := m_redirect p.

(** The three stream getters. *)
Definition GetInputStream (p : t) : ptr := m_inputStream p.
Definition GetErrorStream (p : t) : ptr := m_errorStream p.
Definition GetOutputStream (p : t) : ptr := m_outputStream p.

Definition set_outputStream (q : ptr) (p : t) : t :=
  {| m_id := m_id p; m_pid := m_pid p; m_priority := m_priority p;
     m_inputStream := m_inputStream p; m_errorStream := m_errorStream p;
     m_outputStream := q; m_redirect := m_redirect p |}.

(** [void CloseOutput() { delete m_outputStream; m_outputStream = nullptr; }] *)
Definition CloseOutput (s : state) : option state :=
  σ ← delete_wxOutputStream (m_outputStream (this s)) (heap s);
  Some {| this := set_outputStream nullptr (this s); heap := σ |}.

(** [unsigned GetPriority() const { return m_priority; }] *)
Definition GetPriority (p : t) : N := m_priority p.

(** [void SetPid(long pid) { m_pid = pid; }] *)
Definition SetPid (pid : Z) (p : t) : t :=
  {| m_id := m_id p; m_pid := pid; m_priority := m_priority p;
     m_inputStream := m_inputStream p; m_errorStream := m_errorStream p;
     m_outputStream := m_outputStream p; m_redirect := m_redirect p |}.

(** Modelled from the spec: [IsInputOpened] is only declared in the header,
    its body is in process.cpp.  "True while the stdin write-side has not
    been closed by either CloseOutput or termination cleanup": the write
    stream of the handle, [m_outputStream], is still there. *)
Definition IsInputOpened (s : state) : bool :=
  match m_outputStream (this s) with
  | None => false
  | Some a =>
      match heap s !! a with
      | Some OutputStreamObj => true
      | _ => false
      end
  end.

(** The operations the header defines inline that change a handle. *)
Inductive op :=
  | OpRedirect
  | OpCloseOutput
  | OpSetPid (pid : Z).

Definition on_this (f : t → t) (s : state) : state :=
  {| this := f (this s); heap := heap s |}.

Definition step (o : op) (s : state) : option state :=
  match o with
  | OpRedirect => Some (on_this Redirect s)
  | OpCloseOutput => CloseOutput s
  | OpSetPid pid => Some (on_this (SetPid pid) s)
  end.

Fixpoint run (os : list op) (s : state) : option state :=
  match os with
  | [] => Some s
  | o :: os' => s' ← step o s; run os' s'
  end.

Definition is_Redirect (o : op) : bool :=
  match o with
  | OpRedirect => true
  | _ => false
  end.

(** The output pointer is null or points to a live output stream: the
    states in which [CloseOutput] is defined. *)
Definition output_owned (s : state) : Prop :=
  ∀ a, m_outputStream (this s) = Some a → heap s !! a = Some OutputStreamObj.

Definition is_CloseOutput (o : op) : bool :=
  match o with
  | OpCloseOutput => true
  | _ => false
  end.

(** The argument of the last [SetPid] of a sequence, [d] when there is
    none. *)
Fixpoint last_pid (os : list op) (d : Z) : Z :=
  match os with
  | [] => d
  | OpSetPid pid :: os' => last_pid os' pid
  | _ :: os' => last_pid os' d
  end.

(** What a sequence of inline operations amounts to, read off the three
    bodies: the last identifier set, the flag raised if [Redirect] occurs,
    the output stream destroyed and its pointer reset if [CloseOutput]
    occurs; nothing else is assigned. *)
Definition summary (os : list op) (s : state) : state :=
  let p := this s in
  let closed := existsb is_CloseOutput os in
  {| this :=
       {| m_id := m_id p;
          m_pid := last_pid os (m_pid p);
          m_priority := m_priority p;
          m_inputStream := m_inputStream p;
          m_errorStream := m_errorStream p;
          m_outputStream := if closed then nullptr else m_outputStream p;
          m_redirect := m_redirect p || existsb is_Redirect os |};
     heap := if closed then destroy (m_outputStream p) (heap s) else heap s |}.

(** A read-stream pointer is null or points to a live input stream. *)
Definition input_valid (p : ptr) (σ : store) : bool :=
  match p with
  | None => true
  | Some a =>
      match σ !! a with
      | Some (InputStreamObj _) => true
      | _ => false
      end
  end.

(** No stream pointer of the handle dangles. *)
Definition streams_valid (s : state) : Prop :=
  input_valid (m_inputStream (this s)) (heap s) = true
  ∧ input_valid (m_errorStream (this s)) (heap s) = true
  ∧ output_owned s.

End wxProcess.

(** ** class wxProcessEvent *)

Module wxProcessEvent.

(** [wxEventType] is an integral type of wx/event.h. *)
Abbreviation wxEventType := Z.

(** The data members: the two the base class [wxEvent] contributes that
    the header uses (the identifier given to [wxEvent(nId)] and
    [m_eventType]) and the two of the class itself. *)
Record t := Build {
  m_id : Z;
  m_eventType : wxEventType;
  m_pid : Z;
  m_exitcode : Z
}.

Abbreviation events := (gmap loc t).

Section EventType.

(** [wxEVT_END_PROCESS] is only declared in the header
    ([wxDECLARE_EXPORTED_EVENT]); its value is defined elsewhere. *)
Variable wxEVT_END_PROCESS : wxEventType.

(** [wxProcessEvent(int nId = 0, int pid = 0, int exitcode = 0) : wxEvent(nId)] *)
Definition ctor (nId pid exitcode : Z) : t :=
  {| m_id := nId;
     m_eventType := wxEVT_END_PROCESS;
     m_pid := pid;
     m_exitcode := exitcode |}.

End EventType.

(** [int GetPid() const { return m_pid; }] *)
Definition GetPid (e : t) : Z := m_pid e.

(** [int GetExitCode() const { return m_exitcode; }] *)
Definition GetExitCode (e : t) : Z := m_exitcode e.

(** [int m_pid, m_exitcode;] are declared under [public:] and are not
    const: any code that holds the event may assign them. *)
Definition assign_pid (v : Z) (e : t) : t :=
  {| m_id := m_id e; m_eventType := m_eventType e;
     m_pid := v; m_exitcode := m_exitcode e |}.

Definition assign_exitcode (v : Z) (e : t) : t :=
  {| m_id := m_id e; m_eventType := m_eventType e;
     m_pid := m_pid e; m_exitcode := v |}.

(** The implicitly defined copy constructor: member-wise copy. *)
Definition copy_ctor (e : t) : t :=
  {| m_id := m_id e; m_eventType := m_eventType e;
     m_pid := m_pid e; m_exitcode := m_exitcode e |}.

(** [new T(args)]: the object is placed at an address that is not live. *)
Definition new (e : t) (σ : events) : loc * events :=
  let a := fresh (dom σ) in (a, <[a := e]> σ).

(** [wxEvent *Clone() const override { return new wxProcessEvent( *this); }] *)
Definition Clone (e : t) (σ : events) : loc * events :=
  new (copy_ctor e) σ.

(** Calls of the member functions on an object of the store. *)
Inductive method := MGetPid | MGetExitCode | MClone.

Inductive value :=
  | VInt (n : Z)
  | VPtr (a : loc).

Definition call (m : method) (a : loc) (σ : events) : option (value * events) :=
  e ← σ !! a;
  match m with
  | MGetPid => Some (VInt (GetPid e), σ)
  | MGetExitCode => Some (VInt (GetExitCode e), σ)
  | MClone => let '(b, σ') := Clone e σ in Some (VPtr b, σ')
  end.

Fixpoint calls (ms : list (method * loc)) (σ : events) : option events :=
  match ms with
  | [] => Some σ
  | (m, a) :: ms' => r ← call m a σ; calls ms' r.2
  end.

(** The number of [Clone] calls of a sequence. *)
Fixpoint clones (ms : list (method * loc)) : nat :=
  match ms with
  | [] => 0%nat
  | (MClone, _) :: ms' => S (clones ms')
  | _ :: ms' => clones ms'
  end.

End wxProcessEvent.

(** ** The life cycle of a handle *)

Module Lifecycle.

(** Modelled from the spec: the life-cycle state of a handle, which the
    header does not record.  "{Created, Running, Terminated}". *)
Inductive State := Created | Running | Terminated.

(** Modelled from the spec: the errors of the handle's operations, which the
    header's [void] member functions do not name. *)
Inductive Error :=
  | AlreadyBoundError
  | InvalidStateError
  | NotRedirectedError
  | DoubleTerminationError.

(** Modelled from the spec: the header declares [Detach] and [SetPriority]
    without bodies and has no data member for the life-cycle state, the
    detached flag or the notification sink (they belong to process.cpp and
    to the base class [wxEvtHandler]).  A handle is the [wxProcess] object
    of the header together with the spec's [detached] and [state] and the
    list of exit signals the NotificationDispatcher has received from it.
    The process-wide registry, which only locates the handle for the
    reaper, is not part of a handle. *)
Record system := System {
  core : wxProcess.state;
  detached : bool;
  state : State;
  delivered : list wxProcessEvent.t
}.

(** What an operation on a handle does: it completes, it fails with an
    error of the spec, or it has undefined behaviour in C++. *)
Inductive outcome :=
  | Done (s : system)
  | Fail (e : Error)
  | Undefined.

Definition with_core (c : wxProcess.state) (s : system) : system :=
  {| core := c; detached := detached s; state := state s;
     delivered := delivered s |}.

Definition on_this (f : wxProcess.t → wxProcess.t) (s : system) : system :=
  with_core (wxProcess.on_this f (core s)) s.

Definition GetPid (s : system) : Z := wxProcess.GetPid (wxProcess.this (core s)).
Definition GetPriority (s : system) : N :=
  wxProcess.GetPriority (wxProcess.this (core s)).

(** The launcher binds the processId with the header's [SetPid],
    [void SetPid(long pid) { m_pid = pid; }]: it cannot fail and it records
    nothing but the identifier, so the life-cycle state is as it was. *)
Definition SetPid (pid : Z) (s : system) : system :=
  on_this (wxProcess.SetPid pid) s.

(** The assignment [m_priority = v]. *)
Definition set_priority (v : N) (p : wxProcess.t) : wxProcess.t :=
  {| wxProcess.m_id := wxProcess.m_id p; wxProcess.m_pid := wxProcess.m_pid p;
     wxProcess.m_priority := v;
     wxProcess.m_inputStream := wxProcess.m_inputStream p;
     wxProcess.m_errorStream := wxProcess.m_errorStream p;
     wxProcess.m_outputStream := wxProcess.m_outputStream p;
     wxProcess.m_redirect := wxProcess.m_redirect p |}.

(** Modelled from the spec: the body of [SetPriority] is not in the
    header.  "Fails with InvalidStateError if state is not Created";
    otherwise the value is stored in [m_priority]. *)
Definition SetPriority (v : N) (s : system) : outcome :=
  match state s with
  | Created => Done (on_this (set_priority v) s)
  | _ => Fail InvalidStateError
  end.

(** Modelled from the spec: the body of [Detach] is not in the header.
    "Sets detached = true idempotently"; nothing else changes. *)
Definition Detach (s : system) : system :=
  {| core := core s; detached := true; state := state s;
     delivered := delivered s |}.

(** Modelled from the spec: the clean-up at termination, "always release
    the StreamBundle's read-side resources", the write side being "also
    forced-closed at this point if still open".  The three streams are
    destroyed and their pointers reset. *)
Definition release (c : wxProcess.state) : wxProcess.state :=
  let p := wxProcess.this c in
  {| wxProcess.this :=
       {| wxProcess.m_id := wxProcess.m_id p; wxProcess.m_pid := wxProcess.m_pid p;
          wxProcess.m_priority := wxProcess.m_priority p;
          wxProcess.m_inputStream := nullptr;
          wxProcess.m_errorStream := nullptr;
          wxProcess.m_outputStream := nullptr;
          wxProcess.m_redirect := wxProcess.m_redirect p |};
     wxProcess.heap :=
       destroy (wxProcess.m_outputStream p)
         (destroy (wxProcess.m_errorStream p)
            (destroy (wxProcess.m_inputStream p) (wxProcess.heap c))) |}.

Section EventType.

Variable wxEVT_END_PROCESS : wxProcessEvent.wxEventType.

(** Modelled from the spec: HandleTermination is not in the header.
    "Preconditions: state == Running.  Effects: [...] set state =
    Terminated; if detached == false, construct an ExitSignal and
    forward to NotificationDispatcher; always release the StreamBundle's
    read-side resources ([...] also forced-closed at this point if still
    open)."  The exit signal is built by the header's [wxProcessEvent]
    constructor.  A second call is a DoubleTerminationError; a call on a
    handle that is still Created is outside the window of the operation. *)
Definition HandleTermination (exitCode : Z) (s : system) : outcome :=
  match state s with
  | Running =>
      Done {| core := release (core s);
              detached := detached s;
              state := Terminated;
              delivered :=
                if detached s then delivered s
                else delivered s ++
                     [wxProcessEvent.ctor wxEVT_END_PROCESS
                        (wxProcess.m_id (wxProcess.this (core s)))
                        (GetPid s) exitCode] |}
  | Terminated => Fail DoubleTerminationError
  | Created => Fail InvalidStateError
  end.

(** The operations on a handle: those of the spec and, from the header,
    [SetPid], [Redirect] and [CloseOutput]. *)
Inductive op :=
  | OpSetPid (pid : Z)
  | OpSetPriority (v : N)
  | OpDetach
  | OpTerminate (exitCode : Z)
  | OpRedirect
  | OpCloseOutput.

Definition step (o : op) (s : system) : outcome :=
  match o with
  | OpSetPid pid => Done (SetPid pid s)
  | OpSetPriority v => SetPriority v s
  | OpDetach => Done (Detach s)
  | OpTerminate c => HandleTermination c s
  | OpRedirect => Done (on_this wxProcess.Redirect s)
  | OpCloseOutput =>
      match wxProcess.CloseOutput (core s) with
      | Some c => Done (with_core c s)
      | None => Undefined
      end
  end.

(** A failed operation reports its error and leaves the handle as it
    was; undefined behaviour ends the run. *)
Fixpoint run (os : list op) (s : system) : option system :=
  match os with
  | [] => Some s
  | o :: os' =>
      match step o s with
      | Done s' => run os' s'
      | Fail _ => run os' s
      | Undefined => None
      end
  end.

End EventType.


Definition is_CloseOutput (o : op) : bool :=
  match o with
  | OpCloseOutput => true
  | _ => false
  end.



(** [IsInputOpened] of the handle's [wxProcess] object. *)
Definition IsInputOpened (s : system) : bool :=
  wxProcess.IsInputOpened (core s).

(** The invariant behind "at most once": nothing is delivered before the
    handle is terminated, and at most one signal afterwards. *)
Definition delivery_inv (s : system) : Prop :=
  match state s with
  | Terminated => (length (delivered s) ≤ 1)%nat
  | _ => delivered s = []
  end.

End Lifecycle.

(** ** Process control: Kill and Exists *)

Module ProcessControl.

(** Modelled from the spec: the result type of [Kill], [wxKillError], is
    declared in wx/utils.h, not in this header.  "Ok, NoSuchProcessError,
    AccessDeniedError, OperationNotSupportedError." *)
Inductive KillResult :=
  | Ok
  | NoSuchProcessError
  | AccessDeniedError
  | OperationNotSupportedError.

(** Modelled from the spec: the process-control collaborator is outside the
    header.  What it knows of a process: whether the caller has the
    privilege to signal it and whether it may query it. *)
Record entry := Entry {
  may_signal : bool;
  may_query : bool
}.

(** Modelled from the spec: the collaborator itself, the processes that
    exist and the signal kinds the platform supports. *)
Record facility := Facility {
  procs : gmap Z entry;
  supported : Z → bool
}.

(** Modelled from the spec: [Kill] is only declared in the header.  "Ok,
    NoSuchProcessError (target not found), AccessDeniedError (insufficient
    privilege), OperationNotSupportedError (signal kind unsupported on
    platform)"; the children flag is best effort and "does not cancel the
    direct kill attempt on the root pid", so the result is that of the
    root. *)
Definition Kill (f : facility) (pid sig flags : Z) : KillResult :=
  match procs f !! pid with
  | None => NoSuchProcessError
  | Some e =>
      if negb (supported f sig) then OperationNotSupportedError
      else if negb (may_signal e) then AccessDeniedError
      else Ok
  end.

(** Modelled from the spec: [Exists] is only declared in the header.
    "Probes the external process-control collaborator; returns boolean;
    swallows permission errors into false." *)
Definition Exists (f : facility) (pid : Z) : bool :=
  match procs f !! pid with
  | None => false
  | Some e => may_query e
  end.

End ProcessControl.

(** ** Concrete handles used by the examples below *)

Module Examples.

(** A handle without redirection and without streams. *)
Definition plain : wxProcess.t :=
  {| wxProcess.m_id := 1; wxProcess.m_pid := 0; wxProcess.m_priority := 50%N;
     wxProcess.m_inputStream := nullptr; wxProcess.m_errorStream := nullptr;
     wxProcess.m_outputStream := nullptr; wxProcess.m_redirect := false |}.

(** A redirected handle whose three pipes are open: the child's stdout at
    address 1, its stderr at 2, its stdin at 3. *)
Definition piped : wxProcess.state :=
  {| wxProcess.this :=
       {| wxProcess.m_id := 1; wxProcess.m_pid := 4242;
          wxProcess.m_priority := 50%N;
          wxProcess.m_inputStream := Some 1%positive;
          wxProcess.m_errorStream := Some 2%positive;
          wxProcess.m_outputStream := Some 3%positive;
          wxProcess.m_redirect := true |};
     wxProcess.heap :=
       <[1%positive := InputStreamObj StreamOpen]>
         (<[2%positive := InputStreamObj StreamOpen]>
            (<[3%positive := OutputStreamObj]> ∅)) |}.

(** The same handle after [CloseOutput]. *)
Definition piped_closed : wxProcess.state :=
  {| wxProcess.this :=
       wxProcess.set_outputStream nullptr (wxProcess.this piped);
     wxProcess.heap :=
       <[1%positive := InputStreamObj StreamOpen]>
         (<[2%positive := InputStreamObj StreamOpen]> ∅) |}.


(** A bound handle whose child is running with its pipes open. *)
Definition running : Lifecycle.system :=
  {| Lifecycle.core := piped;
     Lifecycle.detached := false;
     Lifecycle.state := Lifecycle.Running;
     Lifecycle.delivered := [] |}.

(** A platform with one process, 4242, that the caller may neither signal
    nor query, and on which every signal kind is supported. *)
Definition platform : ProcessControl.facility :=
  {| ProcessControl.procs :=
       {[ 4242 := {| ProcessControl.may_signal := false;
                     ProcessControl.may_query := false |} ]};
     ProcessControl.supported := λ _, true |}.

(** An event store with one termination event: pid 4242, exit code 7. *)
Definition one_event : wxProcessEvent.events :=
  {[ 1%positive := wxProcessEvent.ctor 10 1 4242 7 ]}.

End Examples.

(** * Properties of the inline operations of wxProcess *)

Section wxProcess_facts.

Import wxProcess.

Lemma delete_wxOutputStream_Some p (σ σ' : store) :
  delete_wxOutputStream p σ = Some σ' →
  σ' = destroy p σ ∧ ∀ a, p = Some a → σ !! a = Some OutputStreamObj.
Proof.
  unfold delete_wxOutputStream. destruct p as [a|]; simpl.
  - destruct (σ !! a) as [[st|]|] eqn:Ha; intros [= <-]; split; [done|].
    by intros ? [= <-].
  - intros [= <-]. split; [done|]. by intros ? [=].
Qed.

Lemma CloseOutput_Some s s' :
  CloseOutput s = Some s' →
  this s' = set_outputStream nullptr (this s)
  ∧ heap s' = destroy (m_outputStream (this s)) (heap s)
  ∧ output_owned s.
Proof.
  unfold CloseOutput. intros H.
  destruct (delete_wxOutputStream _ _) as [σ|] eqn:Hd; simplify_eq/=.
  apply delete_wxOutputStream_Some in Hd as [-> Hown]. done.
Qed.

Lemma CloseOutput_defined s :
  output_owned s →
  CloseOutput s =
    Some {| this := set_outputStream nullptr (this s);
            heap := destroy (m_outputStream (this s)) (heap s) |}.
Proof.
  unfold output_owned, CloseOutput, delete_wxOutputStream. intros Hown.
  destruct (m_outputStream (this s)) as [a|] eqn:Hp; simpl; [|done].
  by rewrite (Hown a eq_refl).
Qed.

Lemma output_owned_null s : m_outputStream (this s) = None → output_owned s.
Proof. intros Hn a. rewrite Hn. done. Qed.

Lemma step_output_owned o s s' :
  output_owned s → step o s = Some s' → output_owned s'.
Proof.
  destruct o; simpl; intros Hown Hs.
  - by simplify_eq.
  - apply CloseOutput_Some in Hs as (Ht & _ & _).
    apply output_owned_null. by rewrite Ht.
  - by simplify_eq.
Qed.

(** From a state that owns its output stream no run of the inline
    operations reaches undefined behaviour. *)
Lemma run_defined os : ∀ s, output_owned s → is_Some (run os s).
Proof.
  induction os as [|o os IH]; intros s Hown; simpl; [by eexists|].
  assert (is_Some (step o s)) as [s1 Hs1].
  { destruct o; simpl; [by eexists| |by eexists].
    rewrite CloseOutput_defined; [by eexists|done]. }
  rewrite Hs1. simpl. apply IH. by eapply step_output_owned.
Qed.

Lemma step_IsRedirected o s s' :
  step o s = Some s' →
  IsRedirected (this s') =
    match o with OpRedirect => true | _ => IsRedirected (this s) end.
Proof.
  destruct o; simpl; intros Hs.
  - by simplify_eq.
  - apply CloseOutput_Some in Hs as (-> & _ & _). done.
  - by simplify_eq.
Qed.

End wxProcess_facts.

Section wxProcess_claims.

Import wxProcess.

(** C2 (as stated, refuted): a second [SetPid] on the same handle is not
    rejected; it overwrites the identifier the first call stored. *)
Lemma SetPid_second_call_overwrites :
  GetPid (SetPid 5 Examples.plain) = 5
  ∧ GetPid (SetPid 7 (SetPid 5 Examples.plain)) = 7.
Proof. split; reflexivity. Qed.

(** C2 (amended): [SetPid] cannot fail; it stores the given identifier
    whatever the handle held before and whatever the value is, so that
    [GetPid] returns it, a later call replaces it, and no other data
    member changes. *)
Theorem SetPid_stores_unconditionally (pid pid' : Z) (p : t) :
  GetPid (SetPid pid p) = pid
  ∧ SetPid pid' (SetPid pid p) = SetPid pid' p
  ∧ m_id (SetPid pid p) = m_id p
  ∧ GetPriority (SetPid pid p) = GetPriority p
  ∧ GetInputStream (SetPid pid p) = GetInputStream p
  ∧ GetErrorStream (SetPid pid p) = GetErrorStream p
  ∧ GetOutputStream (SetPid pid p) = GetOutputStream p
  ∧ IsRedirected (SetPid pid p) = IsRedirected p.
Proof. by destruct p. Qed.

(** C3 (as stated, refuted): [Redirect], called on a handle built without
    redirection, changes what [IsRedirected] reports. *)
Lemma Redirect_changes_IsRedirected :
  IsRedirected Examples.plain = false
  ∧ IsRedirected (Redirect Examples.plain) = true.
Proof. split; reflexivity. Qed.

(** C3 (amended): [IsRedirected] reports true exactly when the flag was
    set at construction or [Redirect] has been called since: among the
    operations the header defines inline, [Redirect] sets the flag, the
    others leave it alone and none resets it, so once true it stays true. *)
Theorem IsRedirected_only_raised (os : list op) (s s' : state) :
  run os s = Some s' →
  IsRedirected (this s') = IsRedirected (this s) || existsb is_Redirect os
  ∧ (IsRedirected (this s) = true → IsRedirected (this s') = true).
Proof.
  intros Hrun.
  assert (IsRedirected (this s') =
          IsRedirected (this s) || existsb is_Redirect os) as Heq.
  { revert s Hrun. induction os as [|o os IH]; intros s Hrun; simpl in Hrun.
    { simplify_eq. simpl. by rewrite orb_false_r. }
    destruct (step o s) as [s1|] eqn:Hs1; simpl in Hrun; [|done].
    rewrite (IH _ Hrun), (step_IsRedirected _ _ _ Hs1). simpl.
    destruct o; simpl; try done. by rewrite orb_true_r. }
  split; [done|]. intros Ht. by rewrite Heq, Ht.
Qed.

(** C3 at a concrete run: a redirected handle is still redirected after
    [SetPid], [CloseOutput] and [Redirect]. *)
Lemma IsRedirected_only_raised_witness :
  run [OpSetPid 4242; OpCloseOutput; OpRedirect] Examples.piped
    = Some (on_this Redirect Examples.piped_closed)
  ∧ IsRedirected (this (on_this Redirect Examples.piped_closed)) = true.
Proof.
  assert (run [OpSetPid 4242; OpCloseOutput; OpRedirect] Examples.piped
          = Some (on_this Redirect Examples.piped_closed)) as Hrun.
  { vm_compute. reflexivity. }
  split; [exact Hrun|].
  exact (proj2 (IsRedirected_only_raised _ _ _ Hrun) eq_refl).
Defined.

(** C4: [CloseOutput] is idempotent.  After a first call a second one is
    defined (no double delete) and leaves the state the first call
    produced: the output pointer is null and the stream object is gone. *)
Theorem CloseOutput_idempotent (s s' : state) :
  CloseOutput s = Some s' →
  CloseOutput s' = Some s'
  ∧ GetOutputStream (this s') = nullptr
  ∧ ∀ a, GetOutputStream (this s) = Some a → heap s' !! a = None.
Proof.
  intros Hc. apply CloseOutput_Some in Hc as (Ht & Hh & _).
  split; [|split].
  - rewrite CloseOutput_defined.
    + destruct s' as [p' σ']. simpl in *. subst p'. done.
    + apply output_owned_null. by rewrite Ht.
  - by rewrite Ht.
  - intros a Ha. unfold GetOutputStream in Ha. rewrite Hh, Ha. simpl.
    apply lookup_delete_eq.
Qed.

(** C4 on the handle with three open pipes. *)
Lemma CloseOutput_idempotent_witness :
  CloseOutput Examples.piped = Some Examples.piped_closed
  ∧ CloseOutput Examples.piped_closed = Some Examples.piped_closed.
Proof.
  assert (CloseOutput Examples.piped = Some Examples.piped_closed) as Hc.
  { vm_compute. reflexivity. }
  split; [exact Hc|].
  exact (proj1 (CloseOutput_idempotent _ _ Hc)).
Defined.

(** C9: after [CloseOutput], [GetOutputStream] returns null and the object
    it pointed to is destroyed; the input and error stream getters, every
    other data member and every other live object are unchanged. *)
Theorem CloseOutput_frame (s s' : state) :
  CloseOutput s = Some s' →
  GetOutputStream (this s') = nullptr
  ∧ (∀ a, GetOutputStream (this s) = Some a → heap s' !! a = None)
  ∧ GetInputStream (this s') = GetInputStream (this s)
  ∧ GetErrorStream (this s') = GetErrorStream (this s)
  ∧ m_id (this s') = m_id (this s)
  ∧ GetPid (this s') = GetPid (this s)
  ∧ GetPriority (this s') = GetPriority (this s)
  ∧ IsRedirected (this s') = IsRedirected (this s)
  ∧ (∀ b, GetOutputStream (this s) ≠ Some b → heap s' !! b = heap s !! b).
Proof.
  intros Hc. apply CloseOutput_Some in Hc as (Ht & Hh & _).
  rewrite Ht, Hh. repeat split; try done.
  - intros a Ha. unfold GetOutputStream in Ha. rewrite Ha. simpl.
    apply lookup_delete_eq.
  - intros b Hb. unfold GetOutputStream in Hb.
    destruct (m_outputStream (this s)) as [a|]; simpl; [|done].
    apply lookup_delete_ne. congruence.
Qed.

(** C9 on the handle with three open pipes. *)
Lemma CloseOutput_frame_witness :
  CloseOutput Examples.piped = Some Examples.piped_closed
  ∧ GetOutputStream (this Examples.piped_closed) = nullptr.
Proof.
  assert (CloseOutput Examples.piped = Some Examples.piped_closed) as Hc.
  { vm_compute. reflexivity. }
  split; [exact Hc|].
  exact (proj1 (CloseOutput_frame _ _ Hc)).
Defined.

End wxProcess_claims.

(** * Properties of wxProcessEvent *)

Section wxProcessEvent_facts.

Import wxProcessEvent.

Lemma new_fresh (e : t) (σ : events) : σ !! (new e σ).1 = None.
Proof. simpl. apply not_elem_of_dom, is_fresh. Qed.

Lemma new_lookup (e : t) (σ : events) : (new e σ).2 !! (new e σ).1 = Some e.
Proof. simpl. apply lookup_insert_eq. Qed.

Lemma new_preserves (e : t) (σ : events) (a : loc) :
  is_Some (σ !! a) → (new e σ).2 !! a = σ !! a.
Proof.
  intros Hlive. simpl. apply lookup_insert_ne. intros Heq.
  pose proof (new_fresh e σ) as Hf. simpl in Hf. rewrite Heq in Hf.
  rewrite Hf in Hlive. by destruct Hlive.
Qed.

Lemma call_preserves (m : method) (b : loc) (σ : events) r (a : loc) :
  call m b σ = Some r → is_Some (σ !! a) → r.2 !! a = σ !! a.
Proof.
  unfold call. destruct (σ !! b) as [e|]; simpl; [|done].
  destruct m; simpl; intros [= <-] Hlive; try done.
  by apply new_preserves.
Qed.

Lemma calls_preserve (ms : list (method * loc)) :
  ∀ (σ σ' : events) (a : loc),
    calls ms σ = Some σ' → is_Some (σ !! a) → σ' !! a = σ !! a.
Proof.
  induction ms as [|[m b] ms IH]; intros σ σ' a Hc Hlive; simpl in Hc.
  { by simplify_eq. }
  destruct (call m b σ) as [r|] eqn:Hr; simpl in Hc; [|done].
  pose proof (call_preserves _ _ _ _ a Hr Hlive) as Hstep.
  rewrite <- Hstep. apply IH; [done|]. by rewrite Hstep.
Qed.

(** C10: the constructor stores the pid and the exit code and gives the
    event the end-process type, and [Clone] allocates a new event with the
    same pid, exit code and event type, leaving the live events alone. *)
Theorem ctor_and_Clone (wxEVT_END_PROCESS nId pid exitcode : Z)
    (e : t) (σ : events) :
  GetPid (ctor wxEVT_END_PROCESS nId pid exitcode) = pid
  ∧ GetExitCode (ctor wxEVT_END_PROCESS nId pid exitcode) = exitcode
  ∧ m_eventType (ctor wxEVT_END_PROCESS nId pid exitcode) = wxEVT_END_PROCESS
  ∧ σ !! (Clone e σ).1 = None
  ∧ (∃ e', (Clone e σ).2 !! (Clone e σ).1 = Some e'
           ∧ GetPid e' = GetPid e
           ∧ GetExitCode e' = GetExitCode e
           ∧ m_eventType e' = m_eventType e)
  ∧ (∀ a, is_Some (σ !! a) → (Clone e σ).2 !! a = σ !! a).
Proof.
  split; [done|]. split; [done|]. split; [done|].
  unfold Clone. split; [apply new_fresh|]. split.
  - exists (copy_ctor e). split; [apply new_lookup|]. by destruct e.
  - intros a. apply new_preserves.
Qed.

End wxProcessEvent_facts.

(** * Properties of the life cycle *)

Section Lifecycle_facts.

Import Lifecycle.

Variable wxEVT_END_PROCESS : wxProcessEvent.wxEventType.

Local Abbreviation step := (step wxEVT_END_PROCESS).
Local Abbreviation run := (run wxEVT_END_PROCESS).
Local Abbreviation HandleTermination := (HandleTermination wxEVT_END_PROCESS).

Lemma Detach_idem (s : system) : Detach (Detach s) = Detach s.
Proof. done. Qed.

(** What a completed step is, operation by operation. *)
Lemma step_Done o s s' :
  step o s = Done s' →
  match o with
  | OpSetPid pid => s' = SetPid pid s
  | OpSetPriority v => state s = Created ∧ s' = on_this (set_priority v) s
  | OpDetach => s' = Detach s
  | OpTerminate c =>
      state s = Running ∧ HandleTermination c s = Done s'
  | OpRedirect => s' = on_this wxProcess.Redirect s
  | OpCloseOutput =>
      ∃ c, wxProcess.CloseOutput (core s) = Some c ∧ s' = with_core c s
  end.
Proof.
  destruct o; simpl; intros Hs.
  - by simplify_eq.
  - unfold SetPriority in Hs. destruct (state s) eqn:E; by simplify_eq.
  - by simplify_eq.
  - split; [|done].
    unfold HandleTermination, Lifecycle.HandleTermination in Hs.
    by destruct (state s).
  - by simplify_eq.
  - destruct (wxProcess.CloseOutput (core s)) as [c|]; simplify_eq.
    by exists c.
Qed.

Lemma HandleTermination_Done c s s' :
  HandleTermination c s = Done s' →
  state s = Running
  ∧ core s' = release (core s)
  ∧ detached s' = detached s
  ∧ state s' = Terminated
  ∧ delivered s' =
      if detached s then delivered s
      else delivered s ++
           [wxProcessEvent.ctor wxEVT_END_PROCESS
              (wxProcess.m_id (wxProcess.this (core s))) (GetPid s) c].
Proof.
  unfold HandleTermination, Lifecycle.HandleTermination.
  destruct (state s) eqn:E; intros Hs; by simplify_eq/=.
Qed.

Lemma step_detached o s s' :
  step o s = Done s' → detached s = true →
  detached s' = true ∧ delivered s' = delivered s.
Proof.
  intros Hs Hd. apply step_Done in Hs. destruct o.
  - by subst.
  - by destruct Hs as [_ ->].
  - by subst.
  - destruct Hs as [_ Hs].
    apply HandleTermination_Done in Hs as (_ & _ & Hd' & _ & Hl).
    rewrite Hd in Hl. split; congruence.
  - by subst.
  - by destruct Hs as (c & _ & ->).
Qed.

Lemma run_detached os :
  ∀ s s', run os s = Some s' → detached s = true →
    detached s' = true ∧ delivered s' = delivered s.
Proof.
  induction os as [|o os IH]; intros s s' Hr Hd; simpl in Hr.
  { by simplify_eq. }
  destruct (step o s) as [s1| |] eqn:Hs; [| by eauto | done].
  destruct (step_detached _ _ _ Hs Hd) as [Hd1 He1].
  destruct (IH _ _ Hr Hd1) as [? ?]. split; congruence.
Qed.

Lemma step_terminated o s s' :
  step o s = Done s' → state s = Terminated →
  state s' = Terminated ∧ delivered s' = delivered s.
Proof.
  intros Hs Ht. apply step_Done in Hs. destruct o.
  - by subst.
  - destruct Hs as [Hc _]. congruence.
  - by subst.
  - destruct Hs as [Hc _]. congruence.
  - by subst.
  - by destruct Hs as (c & _ & ->).
Qed.

Lemma run_terminated os :
  ∀ s s', run os s = Some s' → state s = Terminated →
    state s' = Terminated ∧ delivered s' = delivered s.
Proof.
  induction os as [|o os IH]; intros s s' Hr Ht; simpl in Hr.
  { by simplify_eq. }
  destruct (step o s) as [s1| |] eqn:Hs; [| by eauto | done].
  destruct (step_terminated _ _ _ Hs Ht) as [Ht1 He1].
  destruct (IH _ _ Hr Ht1) as [? ?]. split; congruence.
Qed.

Lemma step_delivery_inv o s s' :
  step o s = Done s' → delivery_inv s → delivery_inv s'.
Proof.
  intros Hs Hinv. apply step_Done in Hs. destruct o.
  - by subst.
  - by destruct Hs as [_ ->].
  - by subst.
  - destruct Hs as [Hr Hs].
    apply HandleTermination_Done in Hs as (_ & _ & _ & Ht & Hl).
    unfold delivery_inv in *. rewrite Hr in Hinv. rewrite Ht, Hl, Hinv.
    destruct (detached s); simpl; lia.
  - by subst.
  - by destruct Hs as (c & _ & ->).
Qed.

Lemma run_delivery_inv os :
  ∀ s s', run os s = Some s' → delivery_inv s → delivery_inv s'.
Proof.
  induction os as [|o os IH]; intros s s' Hr Hinv; simpl in Hr.
  { by simplify_eq. }
  destruct (step o s) as [s1| |] eqn:Hs; [| by eauto | done].
  eapply IH; [done|]. by eapply step_delivery_inv.
Qed.

Lemma delivery_inv_le s : delivery_inv s → (length (delivered s) ≤ 1)%nat.
Proof.
  unfold delivery_inv. destruct (state s); try done; intros ->; simpl; lia.
Qed.





Lemma step_core_owned o s s' :
  step o s = Done s' →
  wxProcess.output_owned (core s) → wxProcess.output_owned (core s').
Proof.
  intros Hs Hown. apply step_Done in Hs. destruct o.
  - by subst.
  - by destruct Hs as [_ ->].
  - by subst.
  - destruct Hs as [_ Hs].
    apply HandleTermination_Done in Hs as (_ & Hc & _).
    rewrite Hc. by apply output_owned_null.
  - by subst.
  - destruct Hs as (c & Hc & ->).
    apply CloseOutput_Some in Hc as (Ht & _ & _).
    apply output_owned_null. simpl. by rewrite Ht.
Qed.

(** A handle that owns its output stream never runs into undefined
    behaviour: every sequence of operations has a final state. *)
Lemma run_total os :
  ∀ s, wxProcess.output_owned (core s) → is_Some (run os s).
Proof.
  induction os as [|o os IH]; intros s Hown; simpl; [by eexists|].
  destruct (step o s) as [s1| |] eqn:Hs.
  - apply IH. by eapply step_core_owned.
  - by apply IH.
  - destruct o; simpl in Hs; try done.
    + unfold SetPriority in Hs. by destruct (state s).
    + unfold HandleTermination, Lifecycle.HandleTermination in Hs.
      by destruct (state s).
    + by rewrite (CloseOutput_defined _ Hown) in Hs.
Qed.





End Lifecycle_facts.


Section Lifecycle_claims.

Import Lifecycle.

Variable wxEVT_END_PROCESS : wxProcessEvent.wxEventType.

Local Abbreviation step := (step wxEVT_END_PROCESS).
Local Abbreviation run := (run wxEVT_END_PROCESS).
Local Abbreviation HandleTermination := (HandleTermination wxEVT_END_PROCESS).

(** C1: [Detach] sets the detached flag idempotently.  Once it has
    completed, nothing is delivered for the handle whatever happens next (a
    running handle still terminates, silently); and when HandleTermination
    completed first, on an attached handle, the signal it delivered is in
    the sink and a later [Detach], followed by anything, leaves the sink as
    it is. *)
Theorem Detach_vs_HandleTermination (s : system) :
  Detach (Detach s) = Detach s
  ∧ detached (Detach s) = true
  ∧ (∀ os s', run os (Detach s) = Some s' → delivered s' = delivered s)
  ∧ (state s = Running →
     ∀ code, ∃ s1, HandleTermination code (Detach s) = Done s1
                   ∧ state s1 = Terminated
                   ∧ delivered s1 = delivered s)
  ∧ (∀ code s1, HandleTermination code s = Done s1 →
       (detached s = false →
        delivered s1 =
          delivered s ++
          [wxProcessEvent.ctor wxEVT_END_PROCESS
             (wxProcess.m_id (wxProcess.this (core s))) (GetPid s) code])
       ∧ ∀ os s2, run os (Detach s1) = Some s2 → delivered s2 = delivered s1).
Proof.
  split; [apply Detach_idem|]. split; [done|]. split; [|split].
  - intros os s' Hr.
    by destruct (run_detached wxEVT_END_PROCESS os _ _ Hr eq_refl).
  - intros Hs code. unfold HandleTermination, Lifecycle.HandleTermination.
    simpl. rewrite Hs. by eexists.
  - intros code s1 Ht.
    unfold HandleTermination, Lifecycle.HandleTermination in Ht.
    destruct (state s) eqn:E; simplify_eq/=. split.
    + by intros ->.
    + intros os s2 Hr.
      by destruct (run_terminated wxEVT_END_PROCESS os _ _ Hr eq_refl).
Qed.




(** C7 (as stated, refuted): an exit signal is not immutable; an assignment
    to the public member [m_pid] changes the pid it reports. *)
Lemma assign_pid_changes_GetPid :
  wxProcessEvent.GetPid (wxProcessEvent.ctor 10 1 4242 7) = 4242
  ∧ wxProcessEvent.GetPid
      (wxProcessEvent.assign_pid 99 (wxProcessEvent.ctor 10 1 4242 7)) = 99.
Proof. split; reflexivity. Qed.

(** C7 (amended): the member functions of an exit signal ([GetPid],
    [GetExitCode], [Clone], called in any number and order on any live
    events) never change it, but its pid and exit code are public members:
    an assignment to one changes what its getter reports and nothing else.
    A handle delivers at most one signal: the sink of a handle that is not
    yet terminated and has delivered nothing holds at most one signal after
    any sequence of operations, and once the handle is terminated the sink
    does not change any more. *)
Theorem ExitSignal_members_and_delivery :
  (∀ ms (σ σ' : wxProcessEvent.events) a,
     wxProcessEvent.calls ms σ = Some σ' → is_Some (σ !! a) → σ' !! a = σ !! a)
  ∧ (∀ v e,
       wxProcessEvent.GetPid (wxProcessEvent.assign_pid v e) = v
       ∧ wxProcessEvent.GetExitCode (wxProcessEvent.assign_pid v e)
         = wxProcessEvent.GetExitCode e
       ∧ wxProcessEvent.m_id (wxProcessEvent.assign_pid v e)
         = wxProcessEvent.m_id e
       ∧ wxProcessEvent.m_eventType (wxProcessEvent.assign_pid v e)
         = wxProcessEvent.m_eventType e)
  ∧ (∀ v e,
       wxProcessEvent.GetExitCode (wxProcessEvent.assign_exitcode v e) = v
       ∧ wxProcessEvent.GetPid (wxProcessEvent.assign_exitcode v e)
         = wxProcessEvent.GetPid e
       ∧ wxProcessEvent.m_id (wxProcessEvent.assign_exitcode v e)
         = wxProcessEvent.m_id e
       ∧ wxProcessEvent.m_eventType (wxProcessEvent.assign_exitcode v e)
         = wxProcessEvent.m_eventType e)
  ∧ (∀ os s s',
       state s ≠ Terminated → delivered s = [] → run os s = Some s' →
       (length (delivered s') ≤ 1)%nat)
  ∧ (∀ os s s',
       state s = Terminated → run os s = Some s' → delivered s' = delivered s).
Proof.
  split; [|split; [|split; [|split]]].
  - intros ms σ σ' a. apply calls_preserve.
  - done.
  - done.
  - intros os s s' Hne He Hr. apply delivery_inv_le.
    apply (run_delivery_inv wxEVT_END_PROCESS os s s' Hr).
    unfold delivery_inv. by destruct (state s).
  - intros os s s' Ht Hr.
    by destruct (run_terminated wxEVT_END_PROCESS os _ _ Hr Ht).
Qed.

End Lifecycle_claims.

Section ProcessControl_claims.

Import ProcessControl.

(** C8: [Kill] returns one of Ok, NoSuchProcessError, AccessDeniedError and
    OperationNotSupportedError, and NoSuchProcessError for a pid that does
    not exist; [Exists] is false for a pid that does not exist and false
    when the caller is not permitted to query the process. *)
Theorem Kill_and_Exists_results (f : facility) (pid sig flags : Z) :
  (Kill f pid sig flags = Ok
   ∨ Kill f pid sig flags = NoSuchProcessError
   ∨ Kill f pid sig flags = AccessDeniedError
   ∨ Kill f pid sig flags = OperationNotSupportedError)
  ∧ (procs f !! pid = None →
     Kill f pid sig flags = NoSuchProcessError ∧ Exists f pid = false)
  ∧ (∀ e, procs f !! pid = Some e → may_query e = false →
          Exists f pid = false).
Proof.
  split; [|split].
  - destruct (Kill f pid sig flags); auto.
  - intros Hn. unfold Kill, Exists. by rewrite Hn.
  - intros e He Hq. unfold Exists. by rewrite He.
Qed.

End ProcessControl_claims.

(** ** The claims at concrete handles *)

(** C1: a running handle that is detached terminates without a signal. *)
Lemma Detach_vs_HandleTermination_witness :
  ∃ s1, Lifecycle.HandleTermination 10 0 (Lifecycle.Detach Examples.running)
          = Lifecycle.Done s1
        ∧ Lifecycle.state s1 = Lifecycle.Terminated
        ∧ Lifecycle.delivered s1 = [].
Proof.
  exact (proj1 (proj2 (proj2 (proj2
           (Detach_vs_HandleTermination 10 Examples.running)))) eq_refl 0).
Defined.



(** C7 (amended): terminate, bind again, detach, terminate again: one signal. *)
Lemma ExitSignal_members_and_delivery_witness :
  ∃ s', Lifecycle.run 10
          [Lifecycle.OpTerminate 7; Lifecycle.OpSetPid 5;
           Lifecycle.OpDetach; Lifecycle.OpTerminate 9] Examples.running
          = Some s'
        ∧ (length (Lifecycle.delivered s') ≤ 1)%nat.
Proof.
  refine (ex_intro _ _ (conj eq_refl
    (proj1 (proj2 (proj2 (proj2 (ExitSignal_members_and_delivery 10))))
       [Lifecycle.OpTerminate 7; Lifecycle.OpSetPid 5;
        Lifecycle.OpDetach; Lifecycle.OpTerminate 9]
       Examples.running _ _ eq_refl eq_refl))).
  discriminate.
Defined.

(** C8: pid 17 does not exist on the example platform. *)
Lemma Kill_and_Exists_results_witness :
  ProcessControl.Kill Examples.platform 17 15 0 = ProcessControl.NoSuchProcessError
  ∧ ProcessControl.Exists Examples.platform 17 = false.
Proof.
  exact (proj1 (proj2 (Kill_and_Exists_results Examples.platform 17 15 0))
           eq_refl).
Defined.

(** * Further properties of the inline operations *)

Section wxProcess_runs.

Import wxProcess.

(** X1: [CloseOutput] is defined exactly on the handles whose output pointer
    is null or points to a live output stream; and on a handle without an
    output stream it is a no-op. *)
Theorem CloseOutput_defined_iff (s : state) :
  (is_Some (CloseOutput s) ↔ output_owned s)
  ∧ (GetOutputStream (this s) = nullptr → CloseOutput s = Some s).
Proof.
  split; [split|].
  - intros [s' Hc]. by apply CloseOutput_Some in Hc as (_ & _ & Hown).
  - intros Hown. rewrite (CloseOutput_defined _ Hown). by eexists.
  - unfold GetOutputStream. intros Hn.
    rewrite (CloseOutput_defined _ (output_owned_null _ Hn)), Hn.
    destruct s as [[] σ]. simpl in *. subst. reflexivity.
Qed.

(** X1 on the handle without streams. *)
Lemma CloseOutput_defined_iff_witness :
  CloseOutput {| this := Examples.plain; heap := ∅ |}
  = Some {| this := Examples.plain; heap := ∅ |}.
Proof.
  exact (proj2 (CloseOutput_defined_iff {| this := Examples.plain; heap := ∅ |})
           eq_refl).
Defined.

Lemma output_owned_on_this f s :
  m_outputStream (f (this s)) = m_outputStream (this s) →
  output_owned (on_this f s) ↔ output_owned s.
Proof. unfold output_owned. simpl. by intros ->. Qed.

(** X2: the only undefined behaviour a sequence of inline operations can
    run into is its first [CloseOutput] on a dangling output pointer.  A
    sequence without [CloseOutput] is always defined, and one with
    [CloseOutput] is defined exactly when the handle owns its output stream
    at the start: no later [CloseOutput] deletes twice. *)
Theorem run_defined_iff (os : list op) (s : state) :
  is_Some (run os s) ↔ (existsb is_CloseOutput os = true → output_owned s).
Proof.
  revert s. induction os as [|o os IH]; intros s; simpl.
  { split; [done|]. by eexists. }
  destruct o; simpl.
  - rewrite IH. by rewrite output_owned_on_this.
  - split.
    + intros [s' Hr] _. destruct (CloseOutput s) as [s1|] eqn:Hc; [|done].
      by apply CloseOutput_Some in Hc as (_ & _ & Hown).
    + intros Hown. rewrite (CloseOutput_defined _ (Hown eq_refl)). simpl.
      apply IH. intros _. by apply output_owned_null.
  - rewrite IH. by rewrite output_owned_on_this.
Qed.

Lemma summary_cons o os s s1 :
  step o s = Some s1 → summary os s1 = summary (o :: os) s.
Proof.
  destruct o; simpl; intros Hs.
  - simplify_eq. unfold summary. simpl. by rewrite orb_true_r.
  - apply CloseOutput_Some in Hs as (Ht & Hh & _).
    unfold summary. simpl. rewrite Ht, Hh. simpl.
    by destruct (existsb is_CloseOutput os).
  - by simplify_eq.
Qed.

(** X2 on the handle with three open pipes: closing twice is defined. *)
Lemma run_defined_iff_witness :
  is_Some (run [OpCloseOutput; OpCloseOutput] Examples.piped).
Proof.
  refine (proj2 (run_defined_iff [OpCloseOutput; OpCloseOutput] Examples.piped) _).
  intros _ a [= <-]. reflexivity.
Defined.

(** X3: a sequence of inline operations amounts to its summary.  The final
    identifier is that of the last [SetPid], the flag is raised if
    [Redirect] occurs, the output stream is destroyed and its pointer null
    if [CloseOutput] occurs; the handle's id, its priority, its two read
    streams and every other live object are as at the start. *)
Theorem run_summary (os : list op) (s s' : state) :
  run os s = Some s' → s' = summary os s.
Proof.
  revert s. induction os as [|o os IH]; intros s Hr; simpl in Hr.
  - injection Hr as <-. unfold summary. simpl. rewrite orb_false_r.
    by destruct s as [[] σ].
  - destruct (step o s) as [s1|] eqn:Hs; simpl in Hr; [|done].
    rewrite (IH _ Hr). by apply summary_cons.
Qed.

(** X3 at a concrete run on the handle with three open pipes. *)
Lemma run_summary_witness :
  run [OpSetPid 5; OpCloseOutput; OpSetPid 7; OpCloseOutput] Examples.piped
  = Some (on_this (SetPid 7) Examples.piped_closed)
  ∧ on_this (SetPid 7) Examples.piped_closed
    = summary [OpSetPid 5; OpCloseOutput; OpSetPid 7; OpCloseOutput]
        Examples.piped.
Proof.
  assert (run [OpSetPid 5; OpCloseOutput; OpSetPid 7; OpCloseOutput]
            Examples.piped
          = Some (on_this (SetPid 7) Examples.piped_closed)) as Hr.
  { vm_compute. reflexivity. }
  split; [exact Hr|]. exact (run_summary _ _ _ Hr).
Defined.

Lemma input_valid_destroy p q (σ : store) :
  (∀ b, q = Some b → σ !! b = Some OutputStreamObj) →
  input_valid p σ = true →
  input_valid p (destroy q σ) = true
  ∧ ∀ a, p = Some a → destroy q σ !! a = σ !! a.
Proof.
  intros Hq Hp. destruct q as [b|]; simpl; [|done].
  destruct p as [a|]; simpl in *; [|by split].
  destruct (decide (b = a)) as [->|Hne].
  - rewrite (Hq a eq_refl) in Hp. done.
  - rewrite lookup_delete_ne by done. split; [done|].
    intros ? [= <-]. by rewrite lookup_delete_ne.
Qed.

(** X4: no getter ever returns a dangling pointer.  If the three stream
    pointers are null or point to live streams of their class, the same
    holds after any sequence of inline operations, and the two read streams
    are the very objects they were: [CloseOutput] destroys the write stream
    only. *)
Theorem run_streams_valid (os : list op) (s s' : state) :
  streams_valid s → run os s = Some s' →
  streams_valid s'
  ∧ GetInputStream (this s') = GetInputStream (this s)
  ∧ GetErrorStream (this s') = GetErrorStream (this s)
  ∧ (∀ a, GetInputStream (this s) = Some a → heap s' !! a = heap s !! a)
  ∧ (∀ a, GetErrorStream (this s) = Some a → heap s' !! a = heap s !! a).
Proof.
  intros (Hin & Herr & Hown) Hr.
  apply run_summary in Hr as ->. unfold streams_valid, summary. simpl.
  destruct (existsb is_CloseOutput os); simpl.
  - destruct (input_valid_destroy _ _ _ Hown Hin) as [Hin' Hsame].
    destruct (input_valid_destroy _ _ _ Hown Herr) as [Herr' Hsame'].
    repeat split; done.
  - repeat split; done.
Qed.

(** X4 on the handle with three open pipes. *)
Lemma run_streams_valid_witness :
  streams_valid Examples.piped
  ∧ run [OpCloseOutput; OpRedirect] Examples.piped
    = Some (on_this Redirect Examples.piped_closed)
  ∧ streams_valid (on_this Redirect Examples.piped_closed).
Proof.
  assert (streams_valid Examples.piped) as Hv.
  { split; [reflexivity|]. split; [reflexivity|].
    intros a [= <-]. reflexivity. }
  assert (run [OpCloseOutput; OpRedirect] Examples.piped
          = Some (on_this Redirect Examples.piped_closed)) as Hr.
  { vm_compute. reflexivity. }
  split; [exact Hv|]. split; [exact Hr|].
  exact (proj1 (run_streams_valid _ _ _ Hv Hr)).
Defined.

Lemma run_app os1 os2 s :
  run (os1 ++ os2) s = s1 ← run os1 s; run os2 s1.
Proof.
  revert s. induction os1 as [|o os1 IH]; intros s; simpl; [done|].
  destruct (step o s) as [s1|]; simpl; [apply IH|done].
Qed.

Lemma run_two o1 o2 os s :
  run (o1 :: o2 :: os) s = s2 ← (s1 ← step o1 s; step o2 s1); run os s2.
Proof. simpl. by destruct (step o1 s). Qed.

Lemma step_swap o1 o2 s :
  (∀ p q, o1 = OpSetPid p → o2 = OpSetPid q → p = q) →
  (s1 ← step o1 s; step o2 s1) = (s1 ← step o2 s; step o1 s1).
Proof.
  intros Hpid.
  destruct o1 as [| |p], o2 as [| |q]; simpl; try done.
  - unfold CloseOutput. simpl.
    by destruct (delete_wxOutputStream _ _).
  - unfold CloseOutput. simpl.
    by destruct (delete_wxOutputStream _ _).
  - unfold CloseOutput. simpl.
    by destruct (delete_wxOutputStream _ _).
  - unfold CloseOutput. simpl.
    by destruct (delete_wxOutputStream _ _).
  - by rewrite (Hpid p q eq_refl eq_refl).
Qed.

(** X5: the inline operations commute.  Two neighbouring operations of a
    sequence can be exchanged without changing its outcome, undefined
    behaviour included, unless they are two [SetPid] with different
    identifiers: in particular [Redirect] may come before or after the
    launcher's [SetPid] and before or after [CloseOutput]. *)
Theorem run_swap (os1 os2 : list op) (o1 o2 : op) (s : state) :
  (∀ p q, o1 = OpSetPid p → o2 = OpSetPid q → p = q) →
  run (os1 ++ o1 :: o2 :: os2) s = run (os1 ++ o2 :: o1 :: os2) s.
Proof.
  intros Hpid.
  assert (∀ s0, run (o1 :: o2 :: os2) s0 = run (o2 :: o1 :: os2) s0) as Heq.
  { intros s0. rewrite !run_two. by rewrite (step_swap o1 o2 s0 Hpid). }
  rewrite !run_app. destruct (run os1 s) as [s0|]; [apply Heq|done].
Qed.

(** X5 on the handle with three open pipes. *)
Lemma run_swap_witness :
  run [OpSetPid 5; OpCloseOutput; OpRedirect] Examples.piped
  = run [OpSetPid 5; OpRedirect; OpCloseOutput] Examples.piped.
Proof.
  refine (run_swap [OpSetPid 5] [] OpCloseOutput OpRedirect Examples.piped _).
  intros p q [=].
Defined.

End wxProcess_runs.

(** * Further properties of wxProcessEvent *)

Section wxProcessEvent_clones.

Import wxProcessEvent.

Lemma copy_ctor_same (e : t) : copy_ctor e = e.
Proof. by destruct e. Qed.

Lemma call_Clone (σ : events) (a : loc) (e : t) :
  σ !! a = Some e →
  call MClone a σ = Some (VPtr (fresh (dom σ)), <[fresh (dom σ) := e]> σ).
Proof. intros He. unfold call. rewrite He. simpl. by rewrite copy_ctor_same. Qed.

(** X6: every [Clone] yields a distinct object.  Cloning a live event and
    then cloning the clone gives two new addresses, different from each
    other and from the original's; the three events hold the same record,
    and the store has grown by exactly two. *)
Theorem Clone_of_Clone (σ : events) (a : loc) (e : t) :
  σ !! a = Some e →
  ∃ b c σ1 σ2,
    call MClone a σ = Some (VPtr b, σ1)
    ∧ call MClone b σ1 = Some (VPtr c, σ2)
    ∧ a ≠ b ∧ a ≠ c ∧ b ≠ c
    ∧ σ2 !! a = Some e ∧ σ2 !! b = Some e ∧ σ2 !! c = Some e
    ∧ size σ2 = S (S (size σ)).
Proof.
  intros He.
  set (b := fresh (dom σ)). set (σ1 := <[b := e]> σ).
  set (c := fresh (dom σ1)). set (σ2 := <[c := e]> σ1).
  assert (σ !! b = None) as Hb by apply not_elem_of_dom, is_fresh.
  assert (σ1 !! c = None) as Hc by apply not_elem_of_dom, is_fresh.
  assert (σ1 !! b = Some e) as Hb1 by apply lookup_insert_eq.
  assert (a ≠ b) as Hab by congruence.
  assert (b ≠ c) as Hbc by congruence.
  assert (σ1 !! a = Some e) as Ha1.
  { unfold σ1. by rewrite lookup_insert_ne. }
  assert (a ≠ c) as Hac by congruence.
  exists b, c, σ1, σ2. repeat split; try done.
  - by apply call_Clone.
  - by apply call_Clone.
  - unfold σ2. by rewrite lookup_insert_ne.
  - unfold σ2. by rewrite lookup_insert_ne.
  - apply lookup_insert_eq.
  - unfold σ2. rewrite map_size_insert_None by done.
    unfold σ1. by rewrite map_size_insert_None.
Qed.

(** X6 on a store holding one event. *)
Lemma Clone_of_Clone_witness :
  ∃ b c σ1 σ2,
    call MClone 1%positive Examples.one_event = Some (VPtr b, σ1)
    ∧ call MClone b σ1 = Some (VPtr c, σ2)
    ∧ b ≠ c
    ∧ σ2 !! c = Some (ctor 10 1 4242 7).
Proof.
  destruct (Clone_of_Clone Examples.one_event 1%positive
              (ctor 10 1 4242 7) eq_refl)
    as (b & c & σ1 & σ2 & H1 & H2 & _ & _ & Hbc & _ & _ & Hc & _).
  exists b, c, σ1, σ2. repeat split; assumption.
Defined.

Lemma call_size (m : method) (a : loc) (σ : events) r :
  call m a σ = Some r →
  size r.2 = (size σ + clones [(m, a)])%nat ∧ dom σ ⊆ dom r.2.
Proof.
  unfold call. destruct (σ !! a) as [e|]; simpl; [|done].
  destruct m; simpl; intros [= <-]; simpl.
  - split; [lia|done].
  - split; [lia|done].
  - rewrite map_size_insert_None by apply not_elem_of_dom, is_fresh.
    split; [lia|]. rewrite dom_insert_L. set_solver.
Qed.

(** X7: the member functions never free an event and allocate only in
    [Clone]: after any sequence of calls every event that was live is still
    live, and the number of live events has grown by the number of [Clone]
    calls of the sequence. *)
Theorem calls_size (ms : list (method * loc)) (σ σ' : events) :
  calls ms σ = Some σ' →
  size σ' = (size σ + clones ms)%nat ∧ dom σ ⊆ dom σ'.
Proof.
  revert σ. induction ms as [|[m a] ms IH]; intros σ Hc; simpl in Hc.
  { simplify_eq. simpl. split; [lia|done]. }
  destruct (call m a σ) as [r|] eqn:Hr; simpl in Hc; [|done].
  destruct (call_size _ _ _ _ Hr) as [Hs Hd].
  destruct (IH _ Hc) as [Hs' Hd'].
  split; [|by trans (dom r.2)].
  rewrite Hs', Hs. simpl. destruct m; simpl; lia.
Qed.

(** X7 on a store holding one event. *)
Lemma calls_size_witness :
  ∃ σ', calls [(MGetPid, 1%positive); (MClone, 1%positive);
               (MGetExitCode, 1%positive); (MClone, 1%positive)]
          Examples.one_event = Some σ'
        ∧ size σ' = 3%nat.
Proof.
  assert (is_Some (calls [(MGetPid, 1%positive); (MClone, 1%positive);
                          (MGetExitCode, 1%positive); (MClone, 1%positive)]
                     Examples.one_event)) as [σ' Hc].
  { vm_compute. eexists. reflexivity. }
  exists σ'. split; [exact Hc|].
  exact (proj1 (calls_size _ _ _ Hc)).
Defined.

End wxProcessEvent_clones.
